(** * NanoExecutionEngine: the pre-trade risk gate and the engine life cycle

    A shallow embedding of [NanoExecutionEngine.cpp]:
    - [Order], [PreTradeRiskGate::isSafe] (the position-limit comparison on
      IEEE-754 doubles),
    - [NanoExecutionEngine] with its atomic [_running] flag, [runLoop] as a
      small-step machine interleaved with calls of [stop], and [main].

    C++ [double] is modelled by the standard library's [spec_float] at the
    binary64 parameters, so that [<=] has its IEEE meaning (any comparison
    with a NaN is false, the two zeros compare equal).  [long] and [int]
    fields are integers; no arithmetic is performed on them. *)

From Stdlib Require Import ZArith List Bool String Lia.
From Stdlib Require Import Floats.SpecFloat.
Import ListNotations.

Local Open Scope Z_scope.

(** ** IEEE-754 binary64 *)

Module Double.

Definition prec : Z := 53.
Definition emax : Z := 1024.

Definition double : Type := spec_float.

(** The bit patterns a C++ [double] can hold: canonical mantissa and
    exponent in range. *)
Definition well_formed (x : double) : bool := valid_binary prec emax x.

(** [x <= y] on doubles. *)
Definition leb (x y : double) : bool := SFleb x y.

(** [x + y] on doubles, round to nearest even. *)
Definition add (x y : double) : double := SFadd prec emax x y.

(** The double nearest to an integer literal. *)
Definition of_Z (z : Z) : double := binary_normalize prec emax z 0 false.

Definition zero : double := S754_zero false.
Definition nan : double := S754_nan.

Definition is_nan (x : double) : bool :=
  match x with S754_nan => true | _ => false end.

Definition is_finite (x : double) : bool :=
  match x with
  | S754_zero _ | S754_finite _ _ _ => true
  | S754_infinity _ | S754_nan => false
  end.

(** The exact value of a double, as an extended integer counted in units
    of the smallest subnormal, [2 ^ emin] with [emin = -1074]; a NaN has no
    value. *)
Inductive ext : Type :=
| NegInf
| Fin (z : Z)
| PosInf.

Definition ext_le (a b : ext) : Prop :=
  match a, b with
  | NegInf, _ => True
  | _, PosInf => True
  | Fin x, Fin y => x <= y
  | _, _ => False
  end.

Definition units (m : positive) (e : Z) : Z :=
  Zpos m * 2 ^ (e - emin prec emax).

Definition value (x : double) : option ext :=
  match x with
  | S754_nan => None
  | S754_infinity s => Some (if s then NegInf else PosInf)
  | S754_zero _ => Some (Fin 0)
  | S754_finite s m e => Some (Fin (cond_Zopp s (units m e)))
  end.

(** The mathematical order on doubles: both are numbers and the values
    are ordered. *)
Definition le (x y : double) : Prop :=
  match value x, value y with
  | Some a, Some b => ext_le a b
  | _, _ => False
  end.

End Double.

Abbreviation double := Double.double.

(** ** Data model *)

(** [struct Order]. *)
Record Order : Type := mkOrder {
  orderId : Z;
  instrumentId : Z;
  price : double;
  quantity : double;
  side : Z  (* 1=Buy, 2=Sell *)
}.

(** [class PreTradeRiskGate]: the class declares no data member. *)
Record PreTradeRiskGate : Set := mkPreTradeRiskGate {}.

(** Member functions run in a state monad over the object they are called
    on. *)
Definition Method (S A : Type) : Type := S -> A * S.

Definition ret {S A : Type} (a : A) : Method S A := fun s => (a, s).

Definition bind {S A B : Type} (c : Method S A) (k : A -> Method S B)
  : Method S B :=
  fun s => let (a, s') := c s in k a s'.

Notation "x <- c ;; k" := (bind c (fun x => k))
  (at level 61, c at next level, right associativity).

(** [bool PreTradeRiskGate::isSafe(const Order& order, double maxPosition)] *)
Definition isSafe (order : Order) (maxPosition : double)
  : Method PreTradeRiskGate bool :=
  let safe := Double.leb (quantity order) maxPosition in
  ret safe.

(** The verdict of one call. *)
Definition verdict (order : Order) (maxPosition : double)
  (g : PreTradeRiskGate) : bool :=
  fst (isSafe order maxPosition g).

(** A sequence of [isSafe] calls on one gate against one limit, in order:
    the verdicts and the gate afterwards. *)
Fixpoint replay (orders : list Order) (maxPosition : double)
  : Method PreTradeRiskGate (list bool) :=
  match orders with
  | [] => ret []
  | o :: rest =>
      b <- isSafe o maxPosition ;;
      bs <- replay rest maxPosition ;;
      ret (b :: bs)
  end.

(** ** The engine *)

(** What a run of the program does that can be seen from outside.  The last
    three name the calls that the body of [runLoop] holds only inside
    comments ([pollOrder], [_riskGate.isSafe], [sendToWire]). *)
Inductive Event : Type :=
| EvCout (line : string)          (* std::cout << line << std::endl *)
| EvLoadRunning (b : bool)        (* _running.load(relaxed) returned b *)
| EvStoreRunning (b : bool)       (* _running.store(b) *)
| EvYield                         (* std::this_thread::yield() *)
| EvPollOrder
| EvIsSafe (order : Order) (maxPosition : double)
| EvSendToWire (order : Order).

(** [class NanoExecutionEngine].  The [std::atomic<bool>] is one shared cell:
    a load returns the value of the latest store. *)
Record NanoExecutionEngine : Type := mkNanoExecutionEngine {
  _running : bool;
  _riskGate : PreTradeRiskGate
}.

(** [NanoExecutionEngine() : _running(true) {}] *)
Definition NanoExecutionEngine_ctor : NanoExecutionEngine :=
  {| _running := true; _riskGate := mkPreTradeRiskGate |}.

(** [void stop() { _running.store(false); }] *)
Definition stop : Method NanoExecutionEngine (list Event) :=
  fun e =>
    ([EvStoreRunning false],
     {| _running := false; _riskGate := _riskGate e |}).

(** Where the thread that executes [runLoop] stands: about to evaluate the
    [while] condition, inside the body about to yield, or returned. *)
Inductive LoopPoint : Type :=
| AtWhile
| AtYield
| Returned.

(** One atomic step of [runLoop]. *)
Definition runLoop_step (pt : LoopPoint)
  : Method NanoExecutionEngine (LoopPoint * list Event) :=
  fun e =>
    match pt with
    | AtWhile =>
        let b := _running e in
        ((if b then AtYield else Returned, [EvLoadRunning b]), e)
    | AtYield => ((AtWhile, [EvYield]), e)
    | Returned => ((Returned, []), e)
    end.

(** [void runLoop()] executed with nobody else touching the engine, for at
    most [fuel] evaluations of the [while] condition: what it did, whether it
    has returned, and the engine afterwards. *)
Fixpoint runLoop (fuel : nat)
  : Method NanoExecutionEngine (list Event * bool) :=
  fun e =>
    match fuel with
    | O => (([], false), e)
    | S fuel' =>
        let '((pt, ev1), e1) := runLoop_step AtWhile e in
        match pt with
        | AtYield =>
            let '((_, ev2), e2) := runLoop_step AtYield e1 in
            let '((evs, returned), e3) := runLoop fuel' e2 in
            ((ev1 ++ ev2 ++ evs, returned), e3)
        | _ => ((ev1, true), e1)
        end
    end.

(** [n] iterations of the loop body as the loop thread performs them. *)
Definition iterations (n : nat) : list Event :=
  List.concat (repeat [EvLoadRunning true; EvYield] n).

(** The engine shared by the loop thread and the callers of [stop]. *)
Record System : Type := mkSystem {
  engine : NanoExecutionEngine;
  loop : LoopPoint
}.

Inductive Action : Type :=
| LoopStep     (* the loop thread takes its next step *)
| CallStop.    (* somebody calls engine.stop() *)

Definition act (a : Action) (s : System) : System * list Event :=
  match a with
  | LoopStep =>
      let '((pt, evs), e) := runLoop_step (loop s) (engine s) in
      ({| engine := e; loop := pt |}, evs)
  | CallStop =>
      let '(evs, e) := stop (engine s) in
      ({| engine := e; loop := loop s |}, evs)
  end.

(** An interleaving of loop steps and [stop] calls. *)
Fixpoint run (schedule : list Action) (s : System) : System * list Event :=
  match schedule with
  | [] => (s, [])
  | a :: rest =>
      let '(s1, ev1) := act a s in
      let '(s2, ev2) := run rest s1 in
      (s2, ev1 ++ ev2)
  end.

(** A fresh engine whose [runLoop] has just been entered. *)
Definition started : System :=
  {| engine := NanoExecutionEngine_ctor; loop := AtWhile |}.

(** How many steps the loop thread takes in a schedule. *)
Fixpoint loop_steps (schedule : list Action) : nat :=
  match schedule with
  | [] => O
  | LoopStep :: rest => S (loop_steps rest)
  | CallStop :: rest => loop_steps rest
  end.

(** What the loop thread did, what began a new iteration, what touches an
    order. *)
Definition by_loop (ev : Event) : bool :=
  match ev with
  | EvLoadRunning _ | EvYield => true
  | _ => false
  end.

Definition begins_iteration (ev : Event) : bool :=
  match ev with
  | EvLoadRunning true => true
  | _ => false
  end.

Definition is_yield (ev : Event) : bool :=
  match ev with
  | EvYield => true
  | _ => false
  end.

Definition touches_order (ev : Event) : bool :=
  match ev with
  | EvPollOrder | EvIsSafe _ _ | EvSendToWire _ => true
  | _ => false
  end.

Definition count (p : Event -> bool) (evs : list Event) : nat :=
  List.length (filter p evs).

(** How many more steps the loop thread needs to return once the flag is
    clear, and how many more yields it can perform on the way. *)
Definition steps_to_return (pt : LoopPoint) : nat :=
  match pt with
  | AtYield => 2
  | AtWhile => 1
  | Returned => 0
  end.

Definition yields_left (pt : LoopPoint) : nat :=
  match pt with
  | AtYield => 1
  | AtWhile | Returned => 0
  end.

(** [int main()]: the output and the exit status.  The call of
    [engine.runLoop()] is commented out. *)
Definition startup_message : string :=
  "[METAL] Starting NanoExecutionEngine...".

Definition main : list Event * Z :=
  let out := [EvCout startup_message] in
  let engine := NanoExecutionEngine_ctor in
  (out, 0).

(** ** The gate as the specification words it

    Section 4.2 of the specification: four predicates, all evaluated, a
    decision with a reason chosen by fixed priority, and a position kept by
    the gate.  These definitions follow the specification's text; they are
    what [isSafe] is compared with. *)

Module Spec.

Inductive Reason : Type :=
| InvalidSide
| QuantityExceedsLimit
| PositionLimitExceeded
| PriceOutOfBand.

Inductive Decision : Type :=
| Admit
| Reject (reason : Reason).

Record RiskLimits : Type := mkRiskLimits {
  maxQty : double;
  maxPosition : double;
  priceLow : double;
  priceHigh : double
}.

Definition Buy : Z := 1.
Definition Sell : Z := 2.

Definition side_ok (o : Order) : bool :=
  (side o =? Buy) || (side o =? Sell).

Definition quantity_within (limits : RiskLimits) (o : Order) : bool :=
  Double.leb (quantity o) (maxQty limits).

Definition quantity_ok (limits : RiskLimits) (o : Order) : bool :=
  Double.leb Double.zero (quantity o) && quantity_within limits o.

Definition position_ok (limits : RiskLimits) (position : double) (o : Order)
  : bool :=
  Double.leb (Double.add position (quantity o)) (maxPosition limits).

Definition price_ok (limits : RiskLimits) (o : Order) : bool :=
  Double.is_finite (price o)
  && Double.leb (priceLow limits) (price o)
  && Double.leb (price o) (priceHigh limits).

Definition evaluate (limits : RiskLimits) (position : double) (o : Order)
  : Decision :=
  let c1 := side_ok o in
  let c2 := quantity_ok limits o in
  let c3 := position_ok limits position o in
  let c4 := price_ok limits o in
  if negb c1 then Reject InvalidSide
  else if negb c2 then Reject QuantityExceedsLimit
  else if negb c3 then Reject PositionLimitExceeded
  else if negb c4 then Reject PriceOutOfBand
  else Admit.

(** A boolean verdict read as a decision: [true] is [Admit], [false] is a
    rejection. *)
Definition agrees (b : bool) (d : Decision) : Prop :=
  match d with
  | Admit => b = true
  | Reject _ => b = false
  end.

(** The position that the specification has the gate keep for one side:
    starting from [position], the quantity of every admitted order of that
    side is added as the verdicts come. *)
Fixpoint admitted_quantity (s : Z) (position : double) (orders : list Order)
  (verdicts : list bool) : double :=
  match orders, verdicts with
  | o :: orders', b :: verdicts' =>
      let position' :=
        if b && (side o =? s) then Double.add position (quantity o)
        else position in
      admitted_quantity s position' orders' verdicts'
  | _, _ => position
  end.

End Spec.

(** ** Sample data *)

(** The limit that the commented call in [runLoop] passes, [1000.0]. *)
Definition limit_1000 : double := Double.of_Z 1000.

Definition sample_limits : Spec.RiskLimits :=
  {| Spec.maxQty := Double.of_Z 100;
     Spec.maxPosition := limit_1000;
     Spec.priceLow := Double.of_Z 1;
     Spec.priceHigh := Double.of_Z 10000 |}.

Definition buy_50 : Order :=
  {| orderId := 1; instrumentId := 7; price := Double.of_Z 100;
     quantity := Double.of_Z 50; side := 1 |}.

Definition side_3_order : Order :=
  {| orderId := 2; instrumentId := 7; price := Double.of_Z 100;
     quantity := Double.of_Z 50; side := 3 |}.

Definition nan_price_order : Order :=
  {| orderId := 3; instrumentId := 7; price := Double.nan;
     quantity := Double.of_Z 50; side := 1 |}.

Definition negative_order : Order :=
  {| orderId := 4; instrumentId := 7; price := Double.of_Z 100;
     quantity := Double.of_Z (-5); side := 2 |}.

Definition garbage_order : Order :=
  {| orderId := 6; instrumentId := 7; price := Double.nan;
     quantity := Double.of_Z 500; side := 0 |}.

Definition infinite_price_order : Order :=
  {| orderId := 7; instrumentId := 7; price := S754_infinity false;
     quantity := Double.of_Z 50; side := 2 |}.

Definition oversized_order : Order :=
  {| orderId := 5; instrumentId := 7; price := Double.of_Z 100;
     quantity := Double.of_Z 2000; side := 1 |}.

(** * Properties *)

(** ** The IEEE comparison is the order of the exact values *)

Section DoubleOrder.

Import Double.

Lemma digits2_pos_bounds (m : positive) :
  2 ^ (Zpos (digits2_pos m) - 1) <= Zpos m < 2 ^ Zpos (digits2_pos m).
Proof.
  induction m as [p IH | p IH | ]; cbn [digits2_pos];
    try (rewrite Pos2Z.inj_succ;
         replace (Z.succ (Zpos (digits2_pos p)) - 1)
           with (Zpos (digits2_pos p)) by lia;
         rewrite Z.pow_succ_r by lia;
         replace (Zpos (digits2_pos p))
           with (Z.succ (Zpos (digits2_pos p) - 1)) at 1 by lia;
         rewrite Z.pow_succ_r by lia; lia).
  cbn. lia.
Qed.

(** A well-formed finite double has its exponent at or above [emin], at
    most [prec] digits, and exactly [prec] digits unless it is subnormal. *)
Lemma bounded_inv (m : positive) (e : Z) :
  bounded prec emax m e = true ->
  emin prec emax <= e /\
  Zpos (digits2_pos m) <= prec /\
  (emin prec emax < e -> Zpos (digits2_pos m) = prec).
Proof.
  unfold bounded, canonical_mantissa, fexp, prec, emax.
  intros H. apply andb_true_iff in H. destruct H as [H _].
  apply Z.eqb_eq in H. cbv [emin] in *. lia.
Qed.

Lemma units_positive (m : positive) (e : Z) :
  bounded prec emax m e = true -> 0 < units m e.
Proof.
  intros B. destruct (bounded_inv _ _ B) as (Hmin & _ & _).
  unfold units. apply Z.mul_pos_pos; [lia|].
  apply Z.pow_pos_nonneg; lia.
Qed.

(** A smaller exponent means a smaller magnitude. *)
Lemma units_lt (m1 m2 : positive) (e1 e2 : Z) :
  bounded prec emax m1 e1 = true ->
  bounded prec emax m2 e2 = true ->
  e1 < e2 ->
  units m1 e1 < units m2 e2.
Proof.
  intros B1 B2 Hlt.
  destruct (bounded_inv _ _ B1) as (Hmin1 & Hd1 & _).
  destruct (bounded_inv _ _ B2) as (Hmin2 & _ & Hd2).
  specialize (Hd2 ltac:(lia)).
  pose proof (digits2_pos_bounds m1) as [_ Hm1].
  pose proof (digits2_pos_bounds m2) as [Hm2 _].
  rewrite Hd2 in Hm2.
  assert (Hm1' : Zpos m1 < 2 ^ prec).
  { eapply Z.lt_le_trans; [exact Hm1|]. apply Z.pow_le_mono_r; lia. }
  unfold units.
  set (k := e1 - emin prec emax) in *.
  replace (e2 - emin prec emax) with (k + (e2 - e1)) by (unfold k; lia).
  rewrite Z.pow_add_r by (unfold k; lia).
  assert (Hk : 0 < 2 ^ k) by (apply Z.pow_pos_nonneg; unfold k; lia).
  assert (Hd : 2 ^ 1 <= 2 ^ (e2 - e1)) by (apply Z.pow_le_mono_r; lia).
  assert (Hp : 2 ^ prec = 2 ^ (prec - 1) * 2 ^ 1) by reflexivity.
  assert (H53 : 0 < 2 ^ (prec - 1))
    by (apply Z.pow_pos_nonneg; unfold prec; lia).
  rewrite Hp in Hm1'. change (2 ^ 1) with 2 in *.
  clear Hp Hm1 Hd1 Hd2 B1 B2.
  remember (2 ^ (prec - 1)) as P eqn:EP.
  remember (2 ^ (e2 - e1)) as D eqn:ED.
  remember (2 ^ k) as K eqn:EK.
  clear EP ED EK.
  apply Z.lt_le_trans with (P * 2 * K); [nia|].
  apply Z.le_trans with (Zpos m2 * 2 * K); nia.
Qed.

(** The comparison that [SFcompare] makes on two positive finite doubles
    orders their magnitudes. *)
Lemma units_compare (m1 m2 : positive) (e1 e2 : Z) :
  bounded prec emax m1 e1 = true ->
  bounded prec emax m2 e2 = true ->
  CompareSpec (units m1 e1 = units m2 e2)
              (units m1 e1 < units m2 e2)
              (units m2 e2 < units m1 e1)
              match Z.compare e1 e2 with
              | Lt => Lt
              | Gt => Gt
              | Eq => Pos.compare_cont Eq m1 m2
              end.
Proof.
  intros B1 B2.
  destruct (Z.compare_spec e1 e2) as [He | He | He].
  - subst e2. rewrite Pos.compare_cont_spec. cbn [Pos.switch_Eq].
    destruct (bounded_inv _ _ B1) as (Hmin & _ & _).
    assert (Hk : 0 < 2 ^ (e1 - emin prec emax))
      by (apply Z.pow_pos_nonneg; lia).
    unfold units.
    destruct (Pos.compare_spec m1 m2) as [Hm | Hm | Hm]; constructor.
    + now subst.
    + apply Z.mul_lt_mono_pos_r; [assumption | lia].
    + apply Z.mul_lt_mono_pos_r; [assumption | lia].
  - constructor. now apply units_lt.
  - constructor. now apply units_lt.
Qed.

(** [x <= y] on well-formed doubles holds exactly when both are numbers and
    the value of [x] is at most the value of [y]. *)
Lemma leb_exact (x y : double) :
  well_formed x = true -> well_formed y = true ->
  (leb x y = true <-> le x y).
Proof.
  unfold well_formed, leb, le, SFleb.
  destruct x as [sx | sx | | sx mx ex], y as [sy | sy | | sy my ey];
    cbn [valid_binary SFcompare value ext_le]; intros Bx By;
    try (destruct sx); try (destruct sy); cbn [cond_Zopp];
    try (pose proof (units_positive _ _ Bx));
    try (pose proof (units_positive _ _ By));
    try (split; intros;
         solve [ exact I | reflexivity | discriminate | contradiction | lia ]).
  - (* both negative: the order of the magnitudes is reversed *)
    replace (match Z.compare ex ey with
             | Eq => CompOpp (Pos.compare_cont Eq mx my)
             | Lt => Gt
             | Gt => Lt
             end)
      with (CompOpp (match Z.compare ex ey with
                     | Eq => Pos.compare_cont Eq mx my
                     | Lt => Lt
                     | Gt => Gt
                     end))
      by (destruct (Z.compare ex ey); reflexivity).
    destruct (units_compare mx my ex ey Bx By) as [Hc | Hc | Hc];
      cbn [CompOpp];
      split; intros; solve [ reflexivity | discriminate | lia ].
  - (* both positive *)
    destruct (units_compare mx my ex ey Bx By) as [Hc | Hc | Hc];
      split; intros; solve [ reflexivity | discriminate | lia ].
Qed.

(** Adding to a flat position leaves the comparison with a limit as it
    is. *)
Lemma leb_add_zero (q limit : double) : leb (add zero q) limit = leb q limit.
Proof.
  destruct q as [s | s | | s m e]; try reflexivity.
  destruct s; reflexivity.
Qed.

End DoubleOrder.

(** ** The gate *)

Lemma isSafe_eq (o : Order) (m : double) (g : PreTradeRiskGate) :
  isSafe o m g = (Double.leb (quantity o) m, g).
Proof. reflexivity. Qed.

Lemma verdict_eq (o : Order) (m : double) (g : PreTradeRiskGate) :
  verdict o m g = Double.leb (quantity o) m.
Proof. reflexivity. Qed.

Lemma replay_eq (orders : list Order) (m : double) (g : PreTradeRiskGate) :
  replay orders m g = (map (fun o => Double.leb (quantity o) m) orders, g).
Proof.
  induction orders as [| o rest IH]; cbn [replay map].
  - reflexivity.
  - unfold bind. rewrite isSafe_eq, IH. reflexivity.
Qed.

Lemma verdict_position_ok (limits : Spec.RiskLimits) (o : Order)
  (g : PreTradeRiskGate) :
  verdict o (Spec.maxPosition limits) g = Spec.position_ok limits Double.zero o.
Proof.
  rewrite verdict_eq. unfold Spec.position_ok.
  symmetry. apply leb_add_zero.
Qed.

(** C8: [isSafe(o, m)] returns the IEEE comparison [o.quantity <= m]; on
    well-formed doubles it is true exactly when both are numbers and the value
    of the quantity is at most the value of [m]; no other field of the order
    takes part; so an order with a negative quantity not exceeding [m] is
    judged safe. *)
Theorem isSafe_compares_quantity_only (o : Order) (m : double)
  (g : PreTradeRiskGate) :
  Double.well_formed (quantity o) = true ->
  Double.well_formed m = true ->
  verdict o m g = Double.leb (quantity o) m /\
  (verdict o m g = true <-> Double.le (quantity o) m) /\
  (forall id inst p s,
      verdict (mkOrder id inst p (quantity o) s) m g = verdict o m g) /\
  (Double.le (quantity o) m ->
   ~ Double.le Double.zero (quantity o) ->
   verdict o m g = true).
Proof.
  intros Hq Hm.
  pose proof (leb_exact (quantity o) m Hq Hm) as Hex.
  repeat split.
  - apply Hex.
  - apply Hex.
  - intros Hle _. apply Hex, Hle.
Qed.

Lemma isSafe_compares_quantity_only_witness :
  Double.well_formed (quantity negative_order) = true /\
  Double.well_formed limit_1000 = true /\
  Double.le (quantity negative_order) limit_1000 /\
  ~ Double.le Double.zero (quantity negative_order) /\
  verdict negative_order limit_1000 mkPreTradeRiskGate = true.
Proof.
  assert (Hq : Double.well_formed (quantity negative_order) = true)
    by (vm_compute; reflexivity).
  assert (Hm : Double.well_formed limit_1000 = true)
    by (vm_compute; reflexivity).
  assert (Hle : Double.le (quantity negative_order) limit_1000)
    by (vm_compute; discriminate).
  assert (Hneg : ~ Double.le Double.zero (quantity negative_order))
    by (vm_compute; intros H; apply H; reflexivity).
  refine (conj Hq (conj Hm (conj Hle (conj Hneg _)))).
  exact (proj2 (proj2 (proj2
    (isSafe_compares_quantity_only negative_order limit_1000
       mkPreTradeRiskGate Hq Hm))) Hle Hneg).
Defined.

(** C1, as the code has it: an order that passes the four checks (the
    resulting position being the order's own quantity, the gate keeping no
    position) is admitted; and an order is admitted exactly when its quantity
    does not exceed [maxPosition], whatever its side, its price and the
    maximum order quantity. *)
Theorem passing_orders_are_admitted (limits : Spec.RiskLimits) (o : Order)
  (g : PreTradeRiskGate) :
  (Spec.side_ok o = true ->
   Spec.quantity_within limits o = true ->
   Spec.position_ok limits Double.zero o = true ->
   Spec.price_ok limits o = true ->
   verdict o (Spec.maxPosition limits) g = true) /\
  (verdict o (Spec.maxPosition limits) g = true <->
   Double.leb (quantity o) (Spec.maxPosition limits) = true).
Proof.
  split.
  - intros _ _ Hpos _. rewrite verdict_position_ok. exact Hpos.
  - rewrite verdict_eq. reflexivity.
Qed.

Lemma passing_orders_are_admitted_witness :
  Spec.side_ok buy_50 = true /\
  Spec.quantity_within sample_limits buy_50 = true /\
  Spec.position_ok sample_limits Double.zero buy_50 = true /\
  Spec.price_ok sample_limits buy_50 = true /\
  verdict buy_50 (Spec.maxPosition sample_limits) mkPreTradeRiskGate = true.
Proof.
  assert (H1 : Spec.side_ok buy_50 = true) by reflexivity.
  assert (H2 : Spec.quantity_within sample_limits buy_50 = true)
    by (vm_compute; reflexivity).
  assert (H3 : Spec.position_ok sample_limits Double.zero buy_50 = true)
    by (vm_compute; reflexivity).
  assert (H4 : Spec.price_ok sample_limits buy_50 = true)
    by (vm_compute; reflexivity).
  refine (conj H1 (conj H2 (conj H3 (conj H4 _)))).
  exact (proj1 (passing_orders_are_admitted sample_limits buy_50
                  mkPreTradeRiskGate) H1 H2 H3 H4).
Defined.

(** C1 fails as stated: an order with side 0, a NaN price and a quantity
    of 500 against a maximum order quantity of 100 fails three of the four
    checks, and [isSafe] admits it. *)
Lemma admitted_with_failed_checks :
  verdict garbage_order (Spec.maxPosition sample_limits)
    mkPreTradeRiskGate = true /\
  Spec.side_ok garbage_order = false /\
  Spec.quantity_within sample_limits garbage_order = false /\
  Spec.price_ok sample_limits garbage_order = false /\
  Spec.evaluate sample_limits Double.zero garbage_order
  = Spec.Reject Spec.InvalidSide.
Proof. repeat split; vm_compute; reflexivity. Qed.

(** C3, as the code has it: an order whose quantity is not at most
    [maxPosition] (the position check, counted from a flat position) gets
    [false], and gets it again when evaluated again; that is the only
    rejection there is, and the result is a bare boolean. *)
Theorem position_violation_is_rejected (limits : Spec.RiskLimits) (o : Order)
  (g : PreTradeRiskGate) :
  (Spec.position_ok limits Double.zero o = false ->
   verdict o (Spec.maxPosition limits) g = false /\
   verdict o (Spec.maxPosition limits)
     (snd (isSafe o (Spec.maxPosition limits) g)) = false) /\
  (verdict o (Spec.maxPosition limits) g = false ->
   Spec.position_ok limits Double.zero o = false).
Proof.
  split.
  - intros H. split; rewrite verdict_position_ok; exact H.
  - intros H. rewrite <- (verdict_position_ok limits o g). exact H.
Qed.

Lemma position_violation_is_rejected_witness :
  Spec.position_ok sample_limits Double.zero oversized_order = false /\
  verdict oversized_order (Spec.maxPosition sample_limits)
    mkPreTradeRiskGate = false.
Proof.
  assert (H : Spec.position_ok sample_limits Double.zero oversized_order
              = false) by (vm_compute; reflexivity).
  split; [exact H |].
  exact (proj1 (proj1 (position_violation_is_rejected sample_limits
                         oversized_order mkPreTradeRiskGate) H)).
Defined.

(** C3 fails as stated: a sell order with an infinite price violates the
    price predicate, and [isSafe] returns [true] for it, not a rejection. *)
Lemma violating_order_not_rejected :
  Spec.price_ok sample_limits infinite_price_order = false /\
  Spec.evaluate sample_limits Double.zero infinite_price_order
  = Spec.Reject Spec.PriceOutOfBand /\
  verdict infinite_price_order (Spec.maxPosition sample_limits)
    mkPreTradeRiskGate = true /\
  ~ Spec.agrees
      (verdict infinite_price_order (Spec.maxPosition sample_limits)
         mkPreTradeRiskGate)
      (Spec.evaluate sample_limits Double.zero infinite_price_order).
Proof.
  repeat split; try (vm_compute; reflexivity).
  vm_compute. discriminate.
Qed.

(** C6, as the code has it: for an order whose side is not a recognised
    value the verdict is the quantity comparison alone, the same as for any
    other side, and the call leaves the gate as it was. *)
Theorem unrecognised_side_is_not_checked (o : Order) (m : double)
  (g : PreTradeRiskGate) :
  Spec.side_ok o = false ->
  verdict o m g = Double.leb (quantity o) m /\
  (forall s,
      verdict (mkOrder (orderId o) (instrumentId o) (price o) (quantity o) s)
        m g = verdict o m g) /\
  snd (isSafe o m g) = g.
Proof. intros _. repeat split. Qed.

Lemma unrecognised_side_is_not_checked_witness :
  Spec.side_ok side_3_order = false /\
  verdict side_3_order limit_1000 mkPreTradeRiskGate
  = Double.leb (quantity side_3_order) limit_1000.
Proof.
  assert (H : Spec.side_ok side_3_order = false) by reflexivity.
  split; [exact H |].
  exact (proj1 (unrecognised_side_is_not_checked side_3_order limit_1000
                  mkPreTradeRiskGate H)).
Defined.

(** C6 fails as stated: the order with [side = 3] is admitted. *)
Lemma side_3_is_admitted :
  Spec.side_ok side_3_order = false /\
  Spec.evaluate sample_limits Double.zero side_3_order
  = Spec.Reject Spec.InvalidSide /\
  verdict side_3_order (Spec.maxPosition sample_limits) mkPreTradeRiskGate
  = true.
Proof. repeat split; vm_compute; reflexivity. Qed.

(** C7, as the code has it: for an order whose price is not a finite
    in-band value the verdict is the quantity comparison alone, the same as
    for any other price. *)
Theorem bad_price_is_not_checked (limits : Spec.RiskLimits) (o : Order)
  (g : PreTradeRiskGate) :
  Spec.price_ok limits o = false ->
  Spec.side_ok o = true ->
  Spec.quantity_ok limits o = true ->
  verdict o (Spec.maxPosition limits) g
  = Double.leb (quantity o) (Spec.maxPosition limits) /\
  (forall p,
      verdict (mkOrder (orderId o) (instrumentId o) p (quantity o) (side o))
        (Spec.maxPosition limits) g
      = verdict o (Spec.maxPosition limits) g).
Proof. intros _ _ _. repeat split. Qed.

Lemma bad_price_is_not_checked_witness :
  Spec.price_ok sample_limits nan_price_order = false /\
  Spec.side_ok nan_price_order = true /\
  Spec.quantity_ok sample_limits nan_price_order = true /\
  verdict nan_price_order (Spec.maxPosition sample_limits) mkPreTradeRiskGate
  = Double.leb (quantity nan_price_order) (Spec.maxPosition sample_limits).
Proof.
  assert (H1 : Spec.price_ok sample_limits nan_price_order = false)
    by reflexivity.
  assert (H2 : Spec.side_ok nan_price_order = true) by reflexivity.
  assert (H3 : Spec.quantity_ok sample_limits nan_price_order = true)
    by (vm_compute; reflexivity).
  refine (conj H1 (conj H2 (conj H3 _))).
  exact (proj1 (bad_price_is_not_checked sample_limits nan_price_order
                  mkPreTradeRiskGate H1 H2 H3)).
Defined.

(** C7 fails as stated: the order with a NaN price, a valid side and a
    valid quantity is admitted. *)
Lemma nan_price_is_admitted :
  Double.is_nan (price nan_price_order) = true /\
  Spec.side_ok nan_price_order = true /\
  Spec.quantity_ok sample_limits nan_price_order = true /\
  Spec.evaluate sample_limits Double.zero nan_price_order
  = Spec.Reject Spec.PriceOutOfBand /\
  verdict nan_price_order (Spec.maxPosition sample_limits) mkPreTradeRiskGate
  = true.
Proof. repeat split; vm_compute; reflexivity. Qed.

(** C2, as the code has it: the gate keeps no position.  No call of
    [isSafe], whatever its verdict, changes the gate, so after any sequence of
    calls the gate is as it was before: a rejected order contributes to
    nothing, and neither does an admitted one. *)
Theorem gate_keeps_no_position (orders : list Order) (m : double)
  (g : PreTradeRiskGate) :
  snd (replay orders m g) = g /\
  (forall o, snd (isSafe o m g) = g) /\
  (forall o, snd (replay (orders ++ [o]) m g) = snd (replay orders m g)).
Proof.
  repeat split.
  - rewrite replay_eq. reflexivity.
  - intros o. rewrite !replay_eq. reflexivity.
Qed.

(** C2 fails as stated: whatever one reads off the gate as its tracked
    position, it cannot be the admitted quantity both before any order and
    after the admitted buy order of 50, because the gate is the same at both
    points. *)
Lemma admitted_order_not_counted :
  fst (replay [buy_50] limit_1000 mkPreTradeRiskGate) = [true] /\
  ~ exists position_of : PreTradeRiskGate -> double,
      position_of (snd (replay [] limit_1000 mkPreTradeRiskGate))
      = Spec.admitted_quantity 1 Double.zero []
          (fst (replay [] limit_1000 mkPreTradeRiskGate)) /\
      position_of (snd (replay [buy_50] limit_1000 mkPreTradeRiskGate))
      = Spec.admitted_quantity 1 Double.zero [buy_50]
          (fst (replay [buy_50] limit_1000 mkPreTradeRiskGate)).
Proof.
  split; [vm_compute; reflexivity |].
  intros [position_of [H0 H1]].
  rewrite !replay_eq in H0, H1. cbn [snd fst map] in H0, H1.
  rewrite H0 in H1. vm_compute in H1. discriminate H1.
Qed.

(** C5: two gates given the same limit and the same orders return the same
    verdicts and end in the same state; each verdict is a function of the
    order and the limit alone. *)
Theorem replay_is_deterministic (orders : list Order) (m : double)
  (g1 g2 : PreTradeRiskGate) :
  fst (replay orders m g1) = fst (replay orders m g2) /\
  snd (replay orders m g1) = snd (replay orders m g2) /\
  (forall o, isSafe o m g1 = isSafe o m g2).
Proof.
  destruct g1, g2. repeat split.
Qed.

(** ** The engine *)

Lemma count_app (p : Event -> bool) (xs ys : list Event) :
  count p (xs ++ ys) = (count p xs + count p ys)%nat.
Proof. unfold count. rewrite filter_app, length_app. reflexivity. Qed.

Lemma run_cons (a : Action) (rest : list Action) (s : System) :
  run (a :: rest) s
  = (fst (run rest (fst (act a s))),
     snd (act a s) ++ snd (run rest (fst (act a s)))).
Proof.
  cbn [run]. destruct (act a s) as [s1 ev1]. cbn [fst snd].
  destruct (run rest s1) as [s2 ev2]. reflexivity.
Qed.

Lemma run_app (first second : list Action) (s : System) :
  run (first ++ second) s
  = (fst (run second (fst (run first s))),
     snd (run first s) ++ snd (run second (fst (run first s)))).
Proof.
  revert s. induction first as [| a rest IH]; intros s.
  - cbn [app run fst snd]. destruct (run second s). reflexivity.
  - rewrite <- app_comm_cons, !run_cons, IH. cbn [fst snd].
    rewrite app_assoc. reflexivity.
Qed.

(** A loop step leaves the engine as it is. *)
Lemma runLoop_step_engine (pt : LoopPoint) (e : NanoExecutionEngine) :
  snd (runLoop_step pt e) = e.
Proof. destruct pt; reflexivity. Qed.

(** What each action does to the flag. *)
Lemma act_running (a : Action) (s : System) :
  _running (engine (fst (act a s)))
  = match a with
    | LoopStep => _running (engine s)
    | CallStop => false
    end.
Proof. destruct a, s as [e []]; reflexivity. Qed.

(** The flag after an action, when it was clear before. *)
Ltac still_stopped Hs :=
  rewrite act_running;
  match goal with
  | a : Action |- _ => destruct a; [exact Hs | reflexivity]
  end.

(** Case analysis on an action taken with the flag clear. *)
Ltac stopped_cases a s Hs :=
  let r := fresh "r" in
  let g := fresh "g" in
  let pt := fresh "pt" in
  destruct a, s as [[r g] pt]; cbn in Hs; subst r; destruct pt.

(** Once clear, the flag stays clear. *)
Lemma run_keeps_stopped (schedule : list Action) (s : System) :
  _running (engine s) = false ->
  _running (engine (fst (run schedule s))) = false.
Proof.
  revert s. induction schedule as [| a rest IH]; intros s Hs.
  - exact Hs.
  - rewrite run_cons. cbn [fst]. apply IH. still_stopped Hs.
Qed.

(** The flag is clear after a call of [stop], whatever came before. *)
Lemma stopped_after_stop (before : list Action) (s : System) :
  _running (engine (fst (run (before ++ [CallStop]) s))) = false.
Proof.
  rewrite run_app. cbn [fst]. rewrite run_cons. cbn [fst run].
  apply act_running.
Qed.

(** No action touches an order. *)
Lemma act_touches_no_order (a : Action) (s : System) :
  count touches_order (snd (act a s)) = 0%nat.
Proof. destruct a, s as [[[] g] []]; reflexivity. Qed.

Lemma run_touches_no_order (schedule : list Action) (s : System) :
  count touches_order (snd (run schedule s)) = 0%nat.
Proof.
  revert s. induction schedule as [| a rest IH]; intros s.
  - reflexivity.
  - rewrite run_cons. cbn [snd]. rewrite count_app, act_touches_no_order, IH.
    reflexivity.
Qed.

(** With the flag clear the loop thread begins no iteration. *)
Lemma stopped_begins_no_iteration (schedule : list Action) (s : System) :
  _running (engine s) = false ->
  count begins_iteration (snd (run schedule s)) = 0%nat.
Proof.
  revert s. induction schedule as [| a rest IH]; intros s Hs.
  - reflexivity.
  - rewrite run_cons. cbn [snd]. rewrite count_app.
    rewrite IH by still_stopped Hs.
    stopped_cases a s Hs; reflexivity.
Qed.

(** With the flag clear the loop thread yields at most once more, and only
    if it is inside the body. *)
Lemma stopped_yields_left (schedule : list Action) (s : System) :
  _running (engine s) = false ->
  (count is_yield (snd (run schedule s)) <= yields_left (loop s))%nat.
Proof.
  revert s. induction schedule as [| a rest IH]; intros s Hs.
  - cbn. lia.
  - rewrite run_cons. cbn [snd]. rewrite count_app.
    assert (Hs' : _running (engine (fst (act a s))) = false)
      by still_stopped Hs.
    specialize (IH _ Hs').
    stopped_cases a s Hs; cbn in IH |- *; lia.
Qed.

(** With the flag clear the loop thread returns after at most two of its
    own steps. *)
Lemma stopped_returns (schedule : list Action) (s : System) :
  _running (engine s) = false ->
  (steps_to_return (loop s) <= loop_steps schedule)%nat ->
  loop (fst (run schedule s)) = Returned.
Proof.
  revert s. induction schedule as [| a rest IH]; intros s Hs Hn.
  - cbn in Hn |- *. destruct (loop s); cbn in Hn; try lia. reflexivity.
  - rewrite run_cons. cbn [fst]. apply IH.
    + still_stopped Hs.
    + stopped_cases a s Hs; cbn in Hn |- *; lia.
Qed.

(** Left alone with the flag set, [runLoop] performs iteration after
    iteration and does not return. *)
Lemma runLoop_running (fuel : nat) (g : PreTradeRiskGate) :
  runLoop fuel (mkNanoExecutionEngine true g)
  = ((iterations fuel, false), mkNanoExecutionEngine true g).
Proof.
  induction fuel as [| n IH].
  - reflexivity.
  - cbn [runLoop runLoop_step _running]. rewrite IH. reflexivity.
Qed.

(** With the flag clear, [runLoop] returns at its first test. *)
Lemma runLoop_stopped (fuel : nat) (g : PreTradeRiskGate) :
  runLoop (S fuel) (mkNanoExecutionEngine false g)
  = (([EvLoadRunning false], true), mkNanoExecutionEngine false g).
Proof. reflexivity. Qed.

(** The loop thread's steps of the interleaved machine, taken with no
    [stop] in between, are the iterations of [runLoop]. *)
Lemma run_loop_steps (n : nat) (g : PreTradeRiskGate) :
  run (repeat LoopStep (2 * n))
    {| engine := mkNanoExecutionEngine true g; loop := AtWhile |}
  = ({| engine := mkNanoExecutionEngine true g; loop := AtWhile |},
     fst (fst (runLoop n (mkNanoExecutionEngine true g)))).
Proof.
  rewrite runLoop_running. cbn [fst].
  induction n as [| n IH].
  - reflexivity.
  - replace (2 * S n)%nat with (S (S (2 * n))) by lia.
    cbn [repeat]. rewrite !run_cons. cbn [act runLoop_step loop engine
      _running fst snd]. rewrite IH. reflexivity.
Qed.

(** C4: whenever [stop] is called, from then on the loop thread begins no
    new iteration and polls no order, it yields at most once more (the body it
    was in), the flag stays clear, after two of its own steps at most
    [runLoop] has returned, and a [runLoop] entered on that engine later
    returns at its first test. *)
Theorem stop_ends_loop_within_one_iteration (before after : list Action) :
  let s := fst (run (before ++ [CallStop]) started) in
  let fin := fst (run after s) in
  let evs := snd (run after s) in
  count begins_iteration evs = 0%nat /\
  (count is_yield evs <= 1)%nat /\
  count touches_order evs = 0%nat /\
  _running (engine fin) = false /\
  (forall fuel,
      fst (runLoop (S fuel) (engine fin)) = ([EvLoadRunning false], true)) /\
  ((2 <= loop_steps after)%nat -> loop fin = Returned).
Proof.
  intros s fin evs.
  assert (Hs : _running (engine s) = false) by apply stopped_after_stop.
  assert (Hfin : _running (engine fin) = false)
    by apply run_keeps_stopped, Hs.
  split; [| split; [| split; [| split; [| split]]]].
  - apply stopped_begins_no_iteration, Hs.
  - pose proof (stopped_yields_left after s Hs) as H.
    fold evs in H. destruct (loop s); cbn in H; lia.
  - apply run_touches_no_order.
  - exact Hfin.
  - intros fuel. destruct (engine fin) as [r g]. cbn in Hfin. subst r.
    rewrite runLoop_stopped. reflexivity.
  - intros Hn. apply stopped_returns; [exact Hs |].
    destruct (loop s); cbn; lia.
Qed.

Lemma stop_ends_loop_within_one_iteration_witness :
  (2 <= loop_steps [LoopStep; LoopStep])%nat /\
  loop (fst (run [LoopStep; LoopStep]
               (fst (run ([LoopStep] ++ [CallStop]) started)))) = Returned.
Proof.
  assert (H : (2 <= loop_steps [LoopStep; LoopStep])%nat) by (cbn; lia).
  refine (conj H _).
  exact (proj2 (proj2 (proj2 (proj2 (proj2
    (stop_ends_loop_within_one_iteration [LoopStep] [LoopStep; LoopStep])))))
    H).
Defined.

Lemma runLoop_touches_no_order (fuel : nat) (e : NanoExecutionEngine) :
  count touches_order (fst (fst (runLoop fuel e))) = 0%nat.
Proof.
  revert e. induction fuel as [| n IH]; intros [r g].
  - reflexivity.
  - destruct r.
    + cbn [runLoop runLoop_step _running].
      specialize (IH (mkNanoExecutionEngine true g)).
      destruct (runLoop n (mkNanoExecutionEngine true g)) as [[evs ret] e3].
      cbn [fst] in IH |- *. rewrite !count_app, IH. reflexivity.
    + reflexivity.
Qed.

(** C9: a step of [runLoop] only loads the flag or yields and leaves the
    engine as it is; [n] iterations are [n] times one load and one yield, in
    [runLoop] itself and in the interleaved machine; no run touches an order;
    [main] prints the startup line and returns 0 without a single action of
    the loop. *)
Theorem runLoop_only_spins_and_main_skips_it :
  (forall pt e,
      snd (runLoop_step pt e) = e /\
      forallb by_loop (snd (fst (runLoop_step pt e))) = true) /\
  (forall n g,
      runLoop n (mkNanoExecutionEngine true g)
      = ((iterations n, false), mkNanoExecutionEngine true g) /\
      run (repeat LoopStep (2 * n))
        {| engine := mkNanoExecutionEngine true g; loop := AtWhile |}
      = ({| engine := mkNanoExecutionEngine true g; loop := AtWhile |},
         iterations n)) /\
  (forall n e,
      count touches_order (fst (fst (runLoop n e))) = 0%nat) /\
  (forall schedule s, count touches_order (snd (run schedule s)) = 0%nat) /\
  main = ([EvCout startup_message], 0) /\
  count by_loop (fst main) = 0%nat.
Proof.
  split; [| split; [| split; [| split; [| split]]]].
  - intros pt e. split; [apply runLoop_step_engine |].
    destruct pt; reflexivity.
  - intros n g. split; [apply runLoop_running |].
    rewrite run_loop_steps, runLoop_running. reflexivity.
  - apply runLoop_touches_no_order.
  - apply run_touches_no_order.
  - reflexivity.
  - reflexivity.
Qed.

Lemma run_stores_only_false (schedule : list Action) (s : System) (b : bool) :
  In (EvStoreRunning b) (snd (run schedule s)) -> b = false.
Proof.
  revert s. induction schedule as [| a rest IH]; intros s H.
  - destruct H.
  - rewrite run_cons in H. cbn [snd] in H. apply in_app_or in H.
    destruct H as [H | H]; [| exact (IH _ H)].
    destruct a, s as [e []]; cbn in H;
      repeat (destruct H as [H | H]; try discriminate H; try congruence);
      try contradiction.
Qed.

(** C10: the constructor sets [_running] to true; [stop] sets it to false
    and a step of [runLoop] leaves it alone; every store made in a run stores
    false; so once the flag is false it is false after any further run. *)
Theorem running_is_only_ever_cleared (schedule : list Action) (s : System) :
  _running NanoExecutionEngine_ctor = true /\
  (forall e, _running (snd (stop e)) = false) /\
  (forall pt e, _running (snd (runLoop_step pt e)) = _running e) /\
  (forall b, In (EvStoreRunning b) (snd (run schedule s)) -> b = false) /\
  (_running (engine s) = false ->
   _running (engine (fst (run schedule s))) = false).
Proof.
  split; [| split; [| split; [| split]]].
  - reflexivity.
  - intros e. reflexivity.
  - intros pt e. rewrite runLoop_step_engine. reflexivity.
  - intros b. apply run_stores_only_false.
  - apply run_keeps_stopped.
Qed.

Lemma running_is_only_ever_cleared_witness :
  _running (engine (fst (run [CallStop] started))) = false /\
  _running (engine (fst (run [LoopStep; CallStop; LoopStep]
                           (fst (run [CallStop] started))))) = false.
Proof.
  assert (H : _running (engine (fst (run [CallStop] started))) = false)
    by reflexivity.
  refine (conj H _).
  exact (proj2 (proj2 (proj2 (proj2
    (running_is_only_ever_cleared [LoopStep; CallStop; LoopStep]
       (fst (run [CallStop] started)))))) H).
Defined.

(** * Further properties of the gate *)

Section GateEdges.

Import Double.

(** Swapping the operands of the IEEE comparison reverses its outcome. *)
Lemma SFcompare_antisym (x y : double) :
  SFcompare y x = option_map CompOpp (SFcompare x y).
Proof.
  destruct x as [sx | sx | | sx mx ex], y as [sy | sy | | sy my ey];
    try (destruct sx); try (destruct sy); try reflexivity;
    cbn [SFcompare option_map]; f_equal;
    assert (Hp : Pos.compare_cont Eq my mx
                 = CompOpp (Pos.compare_cont Eq mx my))
      by (rewrite Pos.compare_cont_antisym; reflexivity);
    rewrite (Z.compare_antisym ex ey), Hp;
    destruct (Z.compare ex ey); cbn [CompOpp]; try reflexivity.
Qed.

(** Two numbers are always comparable. *)
Lemma SFcompare_numbers (x y : double) :
  is_nan x = false -> is_nan y = false ->
  exists c, SFcompare x y = Some c.
Proof.
  destruct x, y; cbn [is_nan]; intros Hx Hy; try discriminate;
    cbn [SFcompare]; eexists; reflexivity.
Qed.

(** A number compares equal to itself. *)
Lemma SFcompare_refl (x : double) :
  is_nan x = false -> SFcompare x x = Some Eq.
Proof.
  destruct x as [s | s | | s m e]; cbn [is_nan]; intros H;
    try discriminate; try (destruct s; reflexivity).
  cbn [SFcompare]. rewrite Z.compare_refl.
  assert (Hm : Pos.compare_cont Eq m m = Eq)
    by (rewrite Pos.compare_cont_spec; rewrite Pos.compare_refl; reflexivity).
  rewrite Hm. destruct s; reflexivity.
Qed.

Lemma ext_le_trans (a b c : ext) : ext_le a b -> ext_le b c -> ext_le a c.
Proof. destruct a, b, c; cbn; intros; try contradiction; try exact I; lia. Qed.

Lemma le_trans (x y z : double) : le x y -> le y z -> le x z.
Proof.
  unfold le. destruct (value x), (value y), (value z);
    try contradiction; try (intros; contradiction).
  apply ext_le_trans.
Qed.

End GateEdges.

(** X1: a NaN on either side of the comparison makes [isSafe] return
    false: an order with a NaN quantity is never judged safe, and against a
    NaN limit no order is. *)
Theorem isSafe_false_on_nan (o : Order) (m : double) (g : PreTradeRiskGate) :
  Double.is_nan (quantity o) = true \/ Double.is_nan m = true ->
  verdict o m g = false.
Proof.
  rewrite verdict_eq. unfold Double.leb, SFleb.
  intros [H | H].
  - destruct (quantity o); try discriminate H. reflexivity.
  - destruct m; try discriminate H. destruct (quantity o); reflexivity.
Qed.

Lemma isSafe_false_on_nan_witness :
  (Double.is_nan (quantity buy_50) = true \/ Double.is_nan Double.nan = true) /\
  verdict buy_50 Double.nan mkPreTradeRiskGate = false.
Proof.
  assert (H : Double.is_nan (quantity buy_50) = true
              \/ Double.is_nan Double.nan = true) by (right; reflexivity).
  refine (conj H _).
  exact (isSafe_false_on_nan buy_50 Double.nan mkPreTradeRiskGate H).
Defined.

(** X2: [isSafe] is monotone.  When an order is judged safe against a
    limit, every order whose quantity is no larger is judged safe against
    every limit that is no smaller. *)
Theorem isSafe_monotone (o o' : Order) (m m' : double) (g : PreTradeRiskGate) :
  Double.well_formed (quantity o) = true ->
  Double.well_formed (quantity o') = true ->
  Double.well_formed m = true ->
  Double.well_formed m' = true ->
  Double.leb (quantity o') (quantity o) = true ->
  Double.leb m m' = true ->
  verdict o m g = true ->
  verdict o' m' g = true.
Proof.
  intros Hq Hq' Hm Hm' Hqq Hmm Hv.
  rewrite verdict_eq in Hv |- *.
  apply (leb_exact _ _ Hq' Hm').
  apply (leb_exact _ _ Hq' Hq) in Hqq.
  apply (leb_exact _ _ Hq Hm) in Hv.
  apply (leb_exact _ _ Hm Hm') in Hmm.
  eapply le_trans; [exact Hqq |].
  eapply le_trans; [exact Hv | exact Hmm].
Qed.

Lemma isSafe_monotone_witness :
  Double.well_formed (quantity buy_50) = true /\
  Double.well_formed (quantity negative_order) = true /\
  Double.well_formed limit_1000 = true /\
  Double.well_formed (Double.of_Z 5000) = true /\
  Double.leb (quantity negative_order) (quantity buy_50) = true /\
  Double.leb limit_1000 (Double.of_Z 5000) = true /\
  verdict buy_50 limit_1000 mkPreTradeRiskGate = true /\
  verdict negative_order (Double.of_Z 5000) mkPreTradeRiskGate = true.
Proof.
  assert (H1 : Double.well_formed (quantity buy_50) = true)
    by (vm_compute; reflexivity).
  assert (H2 : Double.well_formed (quantity negative_order) = true)
    by (vm_compute; reflexivity).
  assert (H3 : Double.well_formed limit_1000 = true)
    by (vm_compute; reflexivity).
  assert (H4 : Double.well_formed (Double.of_Z 5000) = true)
    by (vm_compute; reflexivity).
  assert (H5 : Double.leb (quantity negative_order) (quantity buy_50) = true)
    by (vm_compute; reflexivity).
  assert (H6 : Double.leb limit_1000 (Double.of_Z 5000) = true)
    by (vm_compute; reflexivity).
  assert (H7 : verdict buy_50 limit_1000 mkPreTradeRiskGate = true)
    by (vm_compute; reflexivity).
  refine (conj H1 (conj H2 (conj H3 (conj H4 (conj H5 (conj H6 (conj H7 _))))))).
  exact (isSafe_monotone buy_50 negative_order limit_1000 (Double.of_Z 5000)
           mkPreTradeRiskGate H1 H2 H3 H4 H5 H6 H7).
Defined.

(** X3: the limit is inclusive.  An order whose quantity is the limit
    itself is judged safe, unless that value is a NaN. *)
Theorem isSafe_limit_inclusive (o : Order) (g : PreTradeRiskGate) :
  verdict o (quantity o) g = negb (Double.is_nan (quantity o)).
Proof.
  rewrite verdict_eq. unfold Double.leb, SFleb.
  destruct (Double.is_nan (quantity o)) eqn:Hn.
  - destruct (quantity o); try discriminate Hn. reflexivity.
  - rewrite (SFcompare_refl _ Hn). reflexivity.
Qed.

(** X4: infinite limits.  Against a limit of plus infinity exactly the
    orders with a NaN quantity are refused; against a limit of minus infinity
    only a quantity of minus infinity is judged safe. *)
Theorem isSafe_infinite_limit (o : Order) (g : PreTradeRiskGate) :
  verdict o (S754_infinity false) g = negb (Double.is_nan (quantity o)) /\
  (verdict o (S754_infinity true) g = true <->
   quantity o = S754_infinity true).
Proof.
  rewrite !verdict_eq. unfold Double.leb, SFleb.
  destruct (quantity o) as [s | s | | s m e]; cbn [SFcompare Double.is_nan negb];
    try (destruct s); split; try reflexivity;
    split; intros H; try reflexivity; try discriminate H.
Qed.

(** X5: a refusal that involves no NaN means that the limit is strictly
    below the quantity, and conversely. *)
Theorem isSafe_false_means_above (o : Order) (m : double)
  (g : PreTradeRiskGate) :
  Double.is_nan (quantity o) = false ->
  Double.is_nan m = false ->
  (verdict o m g = false <-> SFltb m (quantity o) = true).
Proof.
  intros Hq Hm. rewrite verdict_eq. unfold Double.leb, SFleb, SFltb.
  rewrite (SFcompare_antisym (quantity o) m).
  destruct (SFcompare_numbers _ _ Hq Hm) as [c Hc]. rewrite Hc.
  destruct c; cbn [option_map CompOpp]; split; intros H;
    try reflexivity; try discriminate H.
Qed.

Lemma isSafe_false_means_above_witness :
  Double.is_nan (quantity oversized_order) = false /\
  Double.is_nan limit_1000 = false /\
  (verdict oversized_order limit_1000 mkPreTradeRiskGate = false <->
   SFltb limit_1000 (quantity oversized_order) = true).
Proof.
  assert (H1 : Double.is_nan (quantity oversized_order) = false)
    by (vm_compute; reflexivity).
  assert (H2 : Double.is_nan limit_1000 = false) by (vm_compute; reflexivity).
  refine (conj H1 (conj H2 _)).
  exact (isSafe_false_means_above oversized_order limit_1000
           mkPreTradeRiskGate H1 H2).
Defined.

(** * Further properties of the engine *)

(** With the flag set and no call of [stop], the loop thread stays inside
    the loop and the flag stays set. *)
Lemma unstopped_keeps_running (schedule : list Action) (s : System) :
  _running (engine s) = true ->
  loop s <> Returned ->
  ~ In CallStop schedule ->
  _running (engine (fst (run schedule s))) = true /\
  loop (fst (run schedule s)) <> Returned.
Proof.
  revert s. induction schedule as [| a rest IH]; intros s Hr Hl Hn.
  - split; assumption.
  - rewrite run_cons. cbn [fst].
    destruct a; [| exfalso; apply Hn; left; reflexivity].
    apply IH.
    + rewrite act_running. exact Hr.
    + destruct s as [[r g] pt]. cbn in Hr. subst r.
      destruct pt; cbn; try discriminate. exact Hl.
    + intros H. apply Hn. right. exact H.
Qed.

Lemma In_CallStop_dec (schedule : list Action) :
  {In CallStop schedule} + {~ In CallStop schedule}.
Proof.
  induction schedule as [| a rest [IH | IH]].
  - right. intros [].
  - left. right. exact IH.
  - destruct a.
    + right. intros [H | H]; [discriminate H | exact (IH H)].
    + left. left. reflexivity.
Qed.

(** X6: [runLoop] returns only because of [stop].  In every interleaving
    that starts from a fresh engine, if the loop has returned then [stop] was
    called, and as long as [stop] is not called the flag is still set. *)
Theorem runLoop_returns_only_after_stop (schedule : list Action) :
  (loop (fst (run schedule started)) = Returned -> In CallStop schedule) /\
  (~ In CallStop schedule ->
   _running (engine (fst (run schedule started))) = true).
Proof.
  split.
  - intros Hret. destruct (In_CallStop_dec schedule) as [H | H]; [exact H |].
    exfalso.
    destruct (unstopped_keeps_running schedule started) as [_ Hl];
      try reflexivity; try discriminate; try exact H.
    exact (Hl Hret).
  - intros H.
    destruct (unstopped_keeps_running schedule started) as [Hr _];
      try reflexivity; try discriminate; try exact H.
    exact Hr.
Qed.

Lemma runLoop_returns_only_after_stop_witness :
  loop (fst (run [LoopStep; CallStop; LoopStep; LoopStep] started)) = Returned /\
  In CallStop [LoopStep; CallStop; LoopStep; LoopStep].
Proof.
  assert (H : loop (fst (run [LoopStep; CallStop; LoopStep; LoopStep] started))
              = Returned) by reflexivity.
  refine (conj H _).
  exact (proj1 (runLoop_returns_only_after_stop
                  [LoopStep; CallStop; LoopStep; LoopStep]) H).
Defined.

(** X7: every iteration that the loop begins performs exactly one yield.
    Over any interleaving the iterations begun and the yields performed
    differ only by the body the thread is inside of, at the start and at the
    end. *)
Theorem iterations_and_yields_pair_up (schedule : list Action) (s : System) :
  (count begins_iteration (snd (run schedule s)) + yields_left (loop s)
   = count is_yield (snd (run schedule s))
     + yields_left (loop (fst (run schedule s))))%nat.
Proof.
  revert s. induction schedule as [| a rest IH]; intros s.
  - cbn. lia.
  - rewrite run_cons. cbn [fst snd]. rewrite !count_app.
    specialize (IH (fst (act a s))).
    destruct a, s as [[[] g] []]; cbn in IH |- *; lia.
Qed.



(** A call of [stop] does not move the loop thread. *)
Lemma stop_keeps_loop_point (before : list Action) (s : System) :
  loop (fst (run (before ++ [CallStop]) s)) = loop (fst (run before s)).
Proof.
  rewrite run_app. cbn [fst]. rewrite run_cons. reflexivity.
Qed.

(** X9: a [stop] that arrives between two iterations (the loop thread is
    not inside the body) prevents every further yield: the body is not
    executed again, not even once. *)
Theorem stop_between_iterations_prevents_yield (before after : list Action) :
  loop (fst (run before started)) <> AtYield ->
  count is_yield
    (snd (run after (fst (run (before ++ [CallStop]) started)))) = 0%nat.
Proof.
  intros Hpt.
  pose proof (stopped_yields_left after
                (fst (run (before ++ [CallStop]) started))
                (stopped_after_stop before started)) as H.
  rewrite stop_keeps_loop_point in H.
  destruct (loop (fst (run before started))); cbn in H;
    [lia | contradiction | lia].
Qed.

Lemma stop_between_iterations_prevents_yield_witness :
  loop (fst (run [LoopStep; LoopStep] started)) <> AtYield /\
  count is_yield
    (snd (run [LoopStep; LoopStep; LoopStep]
            (fst (run ([LoopStep; LoopStep] ++ [CallStop]) started)))) = 0%nat.
Proof.
  assert (H : loop (fst (run [LoopStep; LoopStep] started)) <> AtYield)
    by (cbn; discriminate).
  refine (conj H _).
  exact (stop_between_iterations_prevents_yield [LoopStep; LoopStep]
           [LoopStep; LoopStep; LoopStep] H).
Defined.

(** On a stopped engine a call of [stop] changes nothing. *)
Lemma stop_on_stopped (s : System) :
  _running (engine s) = false ->
  act CallStop s = (s, [EvStoreRunning false]).
Proof.
  destruct s as [[r g] pt]. cbn. intros H. subst r. reflexivity.
Qed.

(** X10: calling [stop] again is harmless.  Once the flag is clear, a
    further call of [stop] anywhere in the interleaving changes neither the
    final state nor anything the loop thread does. *)
Theorem repeated_stop_is_harmless (first second : list Action) (s : System) :
  _running (engine s) = false ->
  fst (run (first ++ CallStop :: second) s) = fst (run (first ++ second) s) /\
  filter by_loop (snd (run (first ++ CallStop :: second) s))
  = filter by_loop (snd (run (first ++ second) s)).
Proof.
  intros Hs. rewrite !run_app. cbn [fst snd].
  rewrite run_cons.
  rewrite (stop_on_stopped _ (run_keeps_stopped first s Hs)). cbn [fst snd].
  split; [reflexivity |].
  rewrite !filter_app. reflexivity.
Qed.

Lemma repeated_stop_is_harmless_witness :
  _running (engine (fst (run [LoopStep; CallStop] started))) = false /\
  fst (run ([LoopStep] ++ CallStop :: [LoopStep])
         (fst (run [LoopStep; CallStop] started)))
  = fst (run ([LoopStep] ++ [LoopStep])
           (fst (run [LoopStep; CallStop] started))).
Proof.
  assert (H : _running (engine (fst (run [LoopStep; CallStop] started)))
              = false) by reflexivity.
  refine (conj H _).
  exact (proj1 (repeated_stop_is_harmless [LoopStep] [LoopStep]
                  (fst (run [LoopStep; CallStop] started)) H)).
Defined.
